(** * BEP44 get/put over a DHT traversal: [internal/dht/getput.go]

    A shallow embedding of [startGetTraversal] (its [DoQuery] closure),
    [Get] and [Put], and the properties of their reconciliation loops,
    error results and write tokens.

    Conventions of the embedding.
    - [int64] is [Z] restricted by [int64_ok]; the code only compares
      sequence numbers, so no wrap-around arises.
    - [[]byte], [[20]byte], [[32]byte], [[64]byte] are [list byte].
    - A Go [select] is a runtime choice among the ready cases.  A [Round]
      records which cases are ready when the statement runs and which one
      the runtime takes; an [Event] is the case that fired.  The loops of
      [Get] and [Put] consume the events in order.
    - The digest and the signature check are external: they are the
      Variables [sha1] and [Verify] of Section [Classifier].
    - A function that can panic, or wait for ever on a [select], returns
      a [run]. *)

From Stdlib Require Import ZArith List Bool String Lia.
From Stdlib Require Import Strings.Byte.
From Stdlib Require Import Sorting.Permutation.
Import ListNotations.
Local Open Scope Z_scope.

(** ** Data *)

Definition bytes := list byte.

Definition bytes_eq_dec : forall a b : bytes, {a = b} + {a <> b} :=
  list_eq_dec Byte.byte_eq_dec.

Definition MinInt64 : Z := - 2 ^ 63.
Definition MaxInt64 : Z := 2 ^ 63 - 1.
Definition int64_ok (z : Z) : Prop := MinInt64 <= z <= MaxInt64.

(** [context.Context.Err()] once [Done()] is closed. *)
Inductive CtxError := Canceled | DeadlineExceeded.

Inductive error :=
| ErrValueNotFound                (* errors.New("value not found") *)
| ErrCtx (e : CtxError)           (* ctx.Err() *)
| ErrOther (msg : string).        (* any error of the server or transport *)

(** Outcome of running a piece of the program. *)
Inductive run (A : Type) :=
| Returned (a : A)
| Panicked
| Blocked.
Arguments Returned {A} a.
Arguments Panicked {A}.
Arguments Blocked {A}.

(** A value of type [interface{}], as far as the code inspects it. *)
Inductive iface :=
| INil
| IString (s : string)
| IOther.

(** [x.(string)], the panicking form. *)
Definition assert_string (x : iface) : run string :=
  match x with
  | IString s => Returned s
  | _ => Panicked
  end.

(** [v, _ = x.(string)]: the zero string when the assertion fails. *)
Definition assert_string_ok (x : iface) : string :=
  match x with
  | IString s => s
  | _ => EmptyString
  end.

Definition iface_is_nil (x : iface) : bool :=
  match x with
  | INil => true
  | _ => false
  end.

Record FullGetResult := {
  Seq : Z;
  V : bytes;
  Sig : bytes;
  Mutable : bool
}.

Definition zero_sig : bytes := repeat x00 64.

(** The zero value of [FullGetResult]. *)
Definition zero_result : FullGetResult :=
  {| Seq := 0; V := []; Sig := zero_sig; Mutable := false |}.

(** The fields of [krpc.Return] that [DoQuery] reads; [r_Seq] is a pointer. *)
Record Return := {
  r_V : bytes;
  r_K : bytes;
  r_Sig : bytes;
  r_Seq : option Z
}.

Definition NodeAddr := string.

(** [traversal.QueryResult], as [DoQuery] hands it to the engine. *)
Record TraversalQueryResult := {
  ResponseFrom : option NodeAddr;
  ClosestData : iface
}.

(** An element of [op.Closest()]. *)
Record Elem := {
  Addr : NodeAddr;
  Data : iface
}.

(** ** startGetTraversal: the per-node query *)

(** What [startGetTraversal] captures in the [DoQuery] closure. *)
Record Traversal := {
  t_target : bytes;
  t_seq : option Z;
  t_salt : bytes
}.

(** The arguments of [s.Get] issued by [DoQuery]. *)
Record GetRequest := {
  q_addr : NodeAddr;
  q_target : bytes;
  q_seq : option Z
}.

Definition DoQuery_request (t : Traversal) (addr : NodeAddr) : GetRequest :=
  {| q_addr := addr; q_target := t_target t; q_seq := t_seq t |}.

(** How one reply is classified (getput.go lines 49-74). *)
Inductive Classified :=
| Immutable (v : FullGetResult)
| MutableItem (v : FullGetResult)
| Discarded.

Section Classifier.

Variable sha1 : bytes -> bytes.
Variable Verify : bytes -> bytes -> Z -> bytes -> bytes -> bool.

Definition classify (target salt : bytes) (r : Return) : run Classified :=
  if bytes_eq_dec (sha1 (r_V r)) target then
    Returned (Immutable
      {| Seq := 0; V := r_V r; Sig := r_Sig r; Mutable := false |})
  else if bytes_eq_dec (sha1 (r_K r ++ salt)) target then
    (* [*r.Seq] is evaluated as an argument of [bep44.Verify] *)
    match r_Seq r with
    | None => Panicked
    | Some s =>
      if Verify (r_K r) salt s (r_V r) (r_Sig r) then
        Returned (MutableItem
          {| Seq := s; V := r_V r; Sig := r_Sig r; Mutable := true |})
      else Returned Discarded
    end
  else Returned Discarded.

(** The candidate of a classification, if any. *)
Definition candidate (c : Classified) : option FullGetResult :=
  match c with
  | Immutable v | MutableItem v => Some v
  | Discarded => None
  end.

(** Lines 75-79: the token is coerced to a string, then tested for nil. *)
Definition finish_tqr (tqr : TraversalQueryResult) : TraversalQueryResult :=
  let data := IString (assert_string_ok (ClosestData tqr)) in
  if iface_is_nil data
  then {| ResponseFrom := None; ClosestData := data |}
  else {| ResponseFrom := ResponseFrom tqr; ClosestData := data |}.

(** [DoQuery].  [reply] is [res.Reply.R], [tqr] is
    [res.TraversalQueryResult(addr)], and [sent] tells whether the send on
    [vChan] won the inner [select] against [queryCtx.Done()].  The result
    is the candidate put on [vChan], if any, and the query result. *)
Definition DoQuery (t : Traversal) (reply : option Return)
    (tqr : TraversalQueryResult) (sent : bool)
  : run (option FullGetResult * TraversalQueryResult) :=
  match reply with
  | None => Returned (None, finish_tqr tqr)
  | Some r =>
    match classify (t_target t) (t_salt t) r with
    | Returned c =>
      Returned (if sent then candidate c else None, finish_tqr tqr)
    | Panicked => Panicked
    | Blocked => Blocked
    end
  end.

End Classifier.

(** [startGetTraversal]: the traversal and the error of
    [s.TraversalStartingNodes()], here [start_err]. *)
Definition startGetTraversal (target : bytes) (seq : option Z) (salt : bytes)
    (start_err : option error) : Traversal * option error :=
  ({| t_target := target; t_seq := seq; t_salt := salt |}, start_err).

(** ** The select statement of the two loops *)

(** The case of the [select] that fired. *)
Inductive Event :=
| EvStalled                       (* <-op.Stalled() *)
| EvValue (v : FullGetResult)     (* v := <-vChan *)
| EvDone (e : CtxError).          (* <-ctx.Done(), with ctx.Err() = e *)

Inductive Case := CaseStalled | CaseValue | CaseDone.

(** The channels when a [select] runs: whether [op.Stalled()] can be
    received from, the value a sender offers on [vChan], the error of the
    context if it is done; and the case the runtime takes. *)
Record Round := {
  stalled : bool;
  pending : option FullGetResult;
  ctx_done : option CtxError;
  pick : Case
}.

(** The runtime takes one of the ready cases; a case that is not ready
    cannot be taken. *)
Definition select_round (r : Round) : option Event :=
  match pick r with
  | CaseStalled => if stalled r then Some EvStalled else None
  | CaseValue => option_map EvValue (pending r)
  | CaseDone => option_map EvDone (ctx_done r)
  end.

(** The events of a run of rounds, up to the first round that cannot fire. *)
Fixpoint events_of (rs : list Round) : list Event :=
  match rs with
  | [] => []
  | r :: rs' =>
    match select_round r with
    | Some ev => ev :: events_of rs'
    | None => []
    end
  end.

Definition values (vs : list FullGetResult) : list Event := map EvValue vs.

(** ** Get *)

Section GetPut.

Variable Stats : Type.

Record GetResult := {
  ret : FullGetResult;
  stats : option Stats;
  err : option error
}.

(** The loop at label [receiveResults] (lines 110-129). *)
Fixpoint Get_loop (ret : FullGetResult) (gotValue : bool) (evs : list Event)
  : run (FullGetResult * option error) :=
  match evs with
  | [] => Blocked
  | EvStalled :: _ =>
    Returned (ret, if gotValue then None else Some ErrValueNotFound)
  | EvValue v :: evs' =>
    if negb (Mutable v) then Returned (v, None)
    else Get_loop (if Seq v >=? Seq ret then v else ret) true evs'
  | EvDone e :: _ => Returned (ret, Some (ErrCtx e))
  end.

Definition Get (target : bytes) (seq : option Z) (salt : bytes)
    (start_err : option error) (op_stats : Stats) (evs : list Event)
  : run GetResult :=
  match snd (startGetTraversal target seq salt start_err) with
  | Some e => Returned {| ret := zero_result; stats := None; err := Some e |}
  | None =>
    let ret0 := {| Seq := MinInt64; V := V zero_result;
                   Sig := Sig zero_result; Mutable := Mutable zero_result |} in
    match Get_loop ret0 false evs with
    | Returned (r, e) =>
      Returned {| ret := r; stats := Some op_stats; err := e |}
    | Panicked => Panicked
    | Blocked => Blocked
    end
  end.

(** ** Put *)

Variable PutItem : Type.

(** What [Put] does to the outside, in order. *)
Inductive Action :=
| ActStart (t : Traversal)
| ActStop
| ActBuild (seq : Z)
| ActWrite (addr : NodeAddr) (item : PutItem) (token : string)
| ActWarn (addr : NodeAddr) (token : string) (e : error)
| ActDebug (addr : NodeAddr) (token : string).

Record PutResult := {
  p_stats : option Stats;
  p_err : option error;
  p_log : list Action
}.

(** The loop at label [notDone] (lines 151-164). *)
Fixpoint Put_loop (autoSeq : Z) (evs : list Event) : run (Z * option error) :=
  match evs with
  | [] => Blocked
  | EvValue v :: evs' =>
    Put_loop (if Mutable v && (Seq v >? autoSeq) then Seq v else autoSeq) evs'
  | EvStalled :: _ => Returned (autoSeq, None)
  | EvDone e :: _ => Returned (autoSeq, Some (ErrCtx e))
  end.

(** The writes of lines 168-183.  [sPut addr item token] is
    [s.Put(...).ToError()].  Every goroutine assigns the variable [err] of
    [Put]; [closest] lists the elements in the order in which the
    goroutines run, and [err] is the variable as they find it. *)
Fixpoint fan_out (sPut : NodeAddr -> PutItem -> string -> option error)
    (put : PutItem) (closest : list Elem) (err : option error)
  : run (list Action * option error) :=
  match closest with
  | [] => Returned ([], err)
  | el :: rest =>
    match assert_string (Data el) with
    | Returned token =>
      let e := sPut (Addr el) put token in
      match fan_out sPut put rest e with
      | Returned (log, err') =>
        Returned (ActWrite (Addr el) put token
                  :: match e with
                     | Some x => ActWarn (Addr el) token x
                     | None => ActDebug (Addr el) token
                     end
                  :: log, err')
      | Panicked => Panicked
      | Blocked => Blocked
      end
    | Panicked => Panicked
    | Blocked => Blocked
    end
  end.

Definition Put (target salt : bytes) (seqToPut : Z -> PutItem)
    (start_err : option error) (op_stats : Stats) (evs : list Event)
    (closest : list Elem)
    (sPut : NodeAddr -> PutItem -> string -> option error)
  : run PutResult :=
  let (t, e0) := startGetTraversal target None salt start_err in
  match e0 with
  | Some e =>
    Returned {| p_stats := None; p_err := Some e; p_log := [ActStart t] |}
  | None =>
    match Put_loop 0 evs with
    | Returned (autoSeq, err) =>
      let put := seqToPut autoSeq in
      match fan_out sPut put closest err with
      | Returned (log, err') =>
        Returned {| p_stats := Some op_stats; p_err := err';
                    p_log := ActStart t :: ActStop :: ActBuild autoSeq :: log |}
      | Panicked => Panicked
      | Blocked => Blocked
      end
    | Panicked => Panicked
    | Blocked => Blocked
    end
  end.

(** How often the item builder [seqToPut] was called. *)
Definition is_build (a : Action) : bool :=
  match a with
  | ActBuild _ => true
  | _ => false
  end.

Definition is_write (a : Action) : bool :=
  match a with
  | ActWrite _ _ _ => true
  | _ => false
  end.

Definition builds (log : list Action) : nat := List.length (filter is_build log).
Definition writes (log : list Action) : nat := List.length (filter is_write log).

End GetPut.

Arguments ret {Stats} _.
Arguments stats {Stats} _.
Arguments err {Stats} _.
Arguments Build_GetResult {Stats} _ _ _.
Arguments Get {Stats} target seq salt start_err op_stats evs.
Arguments ActStart {PutItem} t.
Arguments ActStop {PutItem}.
Arguments ActBuild {PutItem} seq.
Arguments ActWrite {PutItem} addr item token.
Arguments ActWarn {PutItem} addr token e.
Arguments ActDebug {PutItem} addr token.
Arguments p_stats {Stats PutItem} _.
Arguments p_err {Stats PutItem} _.
Arguments p_log {Stats PutItem} _.
Arguments Build_PutResult {Stats PutItem} _ _ _.
Arguments Put_loop autoSeq evs : simpl nomatch.
Arguments fan_out {PutItem} sPut put closest err.
Arguments Put {Stats PutItem} target salt seqToPut start_err op_stats evs closest sPut.
Arguments is_build {PutItem} a.
Arguments is_write {PutItem} a.
Arguments builds {PutItem} log.
Arguments writes {PutItem} log.

(** ** Sample data for the concrete runs *)

(** A mutable candidate with sequence [s] and value [v]. *)
Definition mutable_item (s : Z) (v : bytes) : FullGetResult :=
  {| Seq := s; V := v; Sig := zero_sig; Mutable := true |}.

Definition immutable_item (v : bytes) : FullGetResult :=
  {| Seq := 0; V := v; Sig := zero_sig; Mutable := false |}.

(** A stand-in digest for the concrete runs: the first 20 bytes, padded. *)
Definition pad20 (b : bytes) : bytes := firstn 20 (b ++ repeat x00 20).

Definition accept_all (k salt : bytes) (s : Z) (v sig : bytes) : bool := true.
Definition reject_all (k salt : bytes) (s : Z) (v sig : bytes) : bool := false.

Definition sample_key : bytes := repeat x6b 32.
Definition sample_salt : bytes := [x73; x61; x6c; x74].

(** A reply whose value is its own public key followed by the salt. *)
Definition key_as_value : Return :=
  {| r_V := sample_key ++ sample_salt; r_K := sample_key;
     r_Sig := zero_sig; r_Seq := Some 1 |}.

Definition n1 : NodeAddr := "n1"%string.
Definition n2 : NodeAddr := "n2"%string.

(** A reply that carries no item. *)
Definition empty_reply : Return :=
  {| r_V := []; r_K := repeat x00 32; r_Sig := zero_sig; r_Seq := None |}.

(** The query result of a node that answered without a token. *)
Definition tokenless (addr : NodeAddr) : TraversalQueryResult :=
  {| ResponseFrom := Some addr; ClosestData := INil |}.

Definition node (addr token : string) : Elem :=
  {| Addr := addr; Data := IString token |}.

Definition refuse (addr : NodeAddr) (item : Z) (token : string) : option error :=
  Some (ErrOther "refused"%string).

Definition accept (addr : NodeAddr) (item : Z) (token : string) : option error :=
  None.

(** A write attempted under a context that is already cancelled. *)
Definition write_cancelled (addr : NodeAddr) (item : Z) (token : string)
  : option error :=
  Some (ErrCtx Canceled).

(** An item builder: the next sequence number stands for the item. *)
Definition next_seq (s : Z) : Z := s + 1.

(** Mutable candidates with sequences 5, 3, 7, 7, told apart by value. *)
Definition seqs_5_3_7_7 : list FullGetResult :=
  [mutable_item 5 [x01]; mutable_item 3 [x02];
   mutable_item 7 [x03]; mutable_item 7 [x04]].

Definition no_starting_nodes : error := ErrOther "no starting nodes"%string.

(** The initial [ret] of [Get]: the zero value with [Seq = math.MinInt64]. *)
Definition initial_ret : FullGetResult :=
  {| Seq := MinInt64; V := []; Sig := zero_sig; Mutable := false |}.

(** A round in which the traversal has stalled and the context is done. *)
Definition stalled_and_cancelled (c : Case) : Round :=
  {| stalled := true; pending := None; ctx_done := Some Canceled; pick := c |}.

(** ** Predicates on events and elements *)

(** A receive on [vChan]. *)
Definition is_value (ev : Event) : bool :=
  match ev with
  | EvValue _ => true
  | _ => false
  end.

(** A receive of a mutable candidate: the one event after which the loop
    of [Get] goes round again. *)
Definition is_mutable_value (ev : Event) : bool :=
  match ev with
  | EvValue v => Mutable v
  | _ => false
  end.

(** The element's [Data] is a string. *)
Definition has_token (el : Elem) : bool :=
  match Data el with
  | IString _ => true
  | _ => false
  end.

(** A reply with a mutable item of sequence 3 under [sample_key]. *)
Definition signed_reply : Return :=
  {| r_V := [x76]; r_K := sample_key; r_Sig := zero_sig; r_Seq := Some 3 |}.

(** A reply under [sample_key] that carries no sequence number. *)
Definition unsequenced_reply : Return :=
  {| r_V := [x76]; r_K := sample_key; r_Sig := zero_sig; r_Seq := None |}.

Definition sample_traversal : Traversal :=
  {| t_target := pad20 (sample_key ++ sample_salt); t_seq := None;
     t_salt := sample_salt |}.

(** ** The choice of the select statement *)

(** The cases of a round that can proceed, in the order in which the
    [select] of [Get] lists them. *)
Definition ready_events (r : Round) : list Event :=
  (if stalled r then [EvStalled] else [])
  ++ match pending r with
     | Some v => [EvValue v]
     | None => []
     end
  ++ match ctx_done r with
     | Some e => [EvDone e]
     | None => []
     end.

(** One [select]: when some case can proceed the runtime takes one of
    those, whatever its [choice]; when none can, nothing fires. *)
Definition select_any (choice : nat) (r : Round) : option Event :=
  nth_error (ready_events r)
            (Nat.modulo choice (List.length (ready_events r))).

(** The events of a run of rounds under the choices of the runtime, up to
    the first round in which no case can proceed. *)
Fixpoint events_any (rs : list (nat * Round)) : list Event :=
  match rs with
  | [] => []
  | (choice, r) :: rs' =>
    match select_any choice r with
    | Some ev => ev :: events_any rs'
    | None => []
    end
  end.

(** A round in which the context is done and nothing else is ready. *)
Definition cancelled_only : Round :=
  {| stalled := false; pending := None; ctx_done := Some Canceled;
     pick := CaseDone |}.

(** * Properties *)

(** ** The classifier *)

Section ClassifierFacts.

Variable sha1 : bytes -> bytes.
Variable Verify : bytes -> bytes -> Z -> bytes -> bytes -> bool.

Lemma classify_immutable_iff target salt r :
  (exists v, classify sha1 Verify target salt r = Returned (Immutable v))
  <-> sha1 (r_V r) = target.
Proof.
  unfold classify.
  destruct (bytes_eq_dec (sha1 (r_V r)) target) as [Hv | Hv].
  - split; [auto | eauto].
  - split; [| contradiction].
    intros [v H].
    destruct (bytes_eq_dec (sha1 (r_K r ++ salt)) target); [| discriminate].
    destruct (r_Seq r); [| discriminate].
    destruct (Verify _ _ _ _ _); discriminate.
Qed.

Lemma classify_mutable_iff target salt r :
  (exists v, classify sha1 Verify target salt r = Returned (MutableItem v))
  <-> sha1 (r_V r) <> target
      /\ sha1 (r_K r ++ salt) = target
      /\ exists s, r_Seq r = Some s
                   /\ Verify (r_K r) salt s (r_V r) (r_Sig r) = true.
Proof.
  unfold classify.
  destruct (bytes_eq_dec (sha1 (r_V r)) target) as [Hv | Hv].
  - split; [intros [v H]; discriminate | intros [H _]; contradiction].
  - destruct (bytes_eq_dec (sha1 (r_K r ++ salt)) target) as [Hk | Hk].
    + destruct (r_Seq r) as [s |].
      * destruct (Verify (r_K r) salt s (r_V r) (r_Sig r)) eqn:Hs.
        -- split; [intros _ | eauto].
           repeat split; auto. exists s. auto.
        -- split; [intros [v H]; discriminate |].
           intros (_ & _ & s' & Hs' & Hok).
           injection Hs' as <-. congruence.
      * split; [intros [v H]; discriminate |].
        intros (_ & _ & s' & Hs' & _). discriminate.
    + split; [intros [v H]; discriminate | intros (_ & H & _); contradiction].
Qed.

Lemma classify_discarded_iff target salt r :
  classify sha1 Verify target salt r = Returned Discarded
  <-> sha1 (r_V r) <> target
      /\ (sha1 (r_K r ++ salt) <> target
          \/ exists s, r_Seq r = Some s
                       /\ Verify (r_K r) salt s (r_V r) (r_Sig r) = false).
Proof.
  unfold classify.
  destruct (bytes_eq_dec (sha1 (r_V r)) target) as [Hv | Hv].
  - split; [discriminate | intros [H _]; contradiction].
  - destruct (bytes_eq_dec (sha1 (r_K r ++ salt)) target) as [Hk | Hk].
    + destruct (r_Seq r) as [s |].
      * destruct (Verify (r_K r) salt s (r_V r) (r_Sig r)) eqn:Hs.
        -- split; [discriminate |].
           intros (_ & [H | (s' & Hs' & Hno)]); [contradiction |].
           injection Hs' as <-. congruence.
        -- split; [intros _ | reflexivity].
           split; [assumption | right; eauto].
      * split; [discriminate |].
        intros (_ & [H | (s' & Hs' & _)]); [contradiction | discriminate].
    + split; [intros _; auto | reflexivity].
Qed.

(** The flag and the payload of whatever [classify] lets through. *)
Lemma classify_candidate target salt r c v :
  classify sha1 Verify target salt r = Returned c ->
  candidate c = Some v ->
  V v = r_V r /\ Sig v = r_Sig r
  /\ (Mutable v = false <-> sha1 (r_V r) = target).
Proof.
  unfold classify.
  destruct (bytes_eq_dec (sha1 (r_V r)) target) as [Hv | Hv].
  - intros [= <-] [= <-]. simpl. tauto.
  - destruct (bytes_eq_dec (sha1 (r_K r ++ salt)) target); [| intros [= <-]; discriminate].
    destruct (r_Seq r); [| discriminate].
    destruct (Verify _ _ _ _ _); intros [= <-]; [| discriminate].
    intros [= <-]. simpl. repeat split; try discriminate. contradiction.
Qed.

(** A discarded reply does not stop [DoQuery]: it still reports to the
    traversal, and puts nothing on the channel. *)
Lemma DoQuery_discarded t r tqr sent :
  classify sha1 Verify (t_target t) (t_salt t) r = Returned Discarded ->
  DoQuery sha1 Verify t (Some r) tqr sent = Returned (None, finish_tqr tqr).
Proof.
  intros H. unfold DoQuery. rewrite H. destruct sent; reflexivity.
Qed.

(** With any digest, a value equal to key and salt hashes to the target
    of the mutable item, and the reply is taken as immutable. *)
Lemma classify_key_as_value salt r :
  r_V r = r_K r ++ salt ->
  classify sha1 Verify (sha1 (r_K r ++ salt)) salt r
  = Returned (Immutable {| Seq := 0; V := r_V r; Sig := r_Sig r;
                           Mutable := false |}).
Proof.
  intros H. unfold classify. rewrite H.
  destruct (bytes_eq_dec _ _); [reflexivity | contradiction].
Qed.

(** The token handed to the traversal is always a string, and the test for
    nil that follows never fires. *)
Lemma finish_tqr_string tqr :
  ResponseFrom (finish_tqr tqr) = ResponseFrom tqr
  /\ ClosestData (finish_tqr tqr) = IString (assert_string_ok (ClosestData tqr)).
Proof. unfold finish_tqr. simpl. auto. Qed.

End ClassifierFacts.

(** C6, as the code has it.  A reply is taken as an immutable candidate iff
    the digest of its value is the target.  It is taken as a mutable
    candidate iff the digest of its value is not the target, the digest of
    public key and salt is the target, and the signature verifies over
    (public key, salt, seq, value).  It is discarded iff the value digest
    differs and either the key digest differs or the signature is rejected;
    a discarded reply puts nothing on the channel and [DoQuery] still
    returns its query result.  Every candidate let through carries the value
    and signature of the reply, and its [Mutable] flag is off exactly when
    the value digest is the target: the first test that holds decides. *)
Theorem classify_first_match_decides :
  forall (sha1 : bytes -> bytes)
         (Verify : bytes -> bytes -> Z -> bytes -> bytes -> bool)
         (t : Traversal) (r : Return),
    let target := t_target t in
    let salt := t_salt t in
    let key_ok := sha1 (r_K r ++ salt) = target in
    ((exists v, classify sha1 Verify target salt r = Returned (Immutable v))
     <-> sha1 (r_V r) = target)
    /\ ((exists v, classify sha1 Verify target salt r = Returned (MutableItem v))
        <-> sha1 (r_V r) <> target /\ key_ok
            /\ exists s, r_Seq r = Some s
                         /\ Verify (r_K r) salt s (r_V r) (r_Sig r) = true)
    /\ (classify sha1 Verify target salt r = Returned Discarded
        <-> sha1 (r_V r) <> target
            /\ (~ key_ok
                \/ exists s, r_Seq r = Some s
                             /\ Verify (r_K r) salt s (r_V r) (r_Sig r) = false))
    /\ (classify sha1 Verify target salt r = Returned Discarded ->
        forall tqr sent,
          DoQuery sha1 Verify t (Some r) tqr sent
          = Returned (None, finish_tqr tqr))
    /\ (forall c v,
          classify sha1 Verify target salt r = Returned c ->
          candidate c = Some v ->
          V v = r_V r /\ Sig v = r_Sig r
          /\ (Mutable v = false <-> sha1 (r_V r) = target)).
Proof.
  intros sha1 Verify t r target salt key_ok. subst target salt key_ok.
  split; [apply classify_immutable_iff |].
  split; [apply classify_mutable_iff |].
  split; [apply classify_discarded_iff |].
  split.
  - intros H tqr sent. now apply DoQuery_discarded.
  - intros c v. apply classify_candidate.
Qed.

(** C6, the claim as written fails: the reply [key_as_value] has the key
    digest equal to the target and a signature that verifies, yet it is
    taken as immutable, not mutable, because its value digest is the target
    too.  Both acceptance conditions hold for the candidate it emits. *)
Lemma classify_mutable_condition_not_sufficient :
  let target := pad20 (sample_key ++ sample_salt) in
  let r := key_as_value in
  (pad20 (r_K r ++ sample_salt) = target
   /\ accept_all (r_K r) sample_salt 1 (r_V r) (r_Sig r) = true
   /\ pad20 (r_V r) = target)
  /\ classify pad20 accept_all target sample_salt r
     = Returned (Immutable {| Seq := 0; V := r_V r; Sig := r_Sig r;
                              Mutable := false |})
  /\ ~ (exists v, classify pad20 accept_all target sample_salt r
                  = Returned (MutableItem v)).
Proof.
  cbv zeta.
  assert (H : classify pad20 accept_all (pad20 (sample_key ++ sample_salt))
                sample_salt key_as_value
              = Returned (Immutable {| Seq := 0; V := r_V key_as_value;
                                       Sig := r_Sig key_as_value;
                                       Mutable := false |})).
  { apply (classify_key_as_value pad20 accept_all sample_salt key_as_value).
    reflexivity. }
  split; [repeat split |].
  split; [exact H |].
  intros [v Hv]. rewrite H in Hv. discriminate.
Qed.

(** C10, the code at a node that answered without a token: the coerced
    token is the empty string, which is not nil, so [ResponseFrom] stays
    set and the node is reported to the traversal like any other. *)
Theorem finish_tqr_keeps_tokenless_node :
  finish_tqr (tokenless n1)
  = {| ResponseFrom := Some n1; ClosestData := IString "" |}
  /\ DoQuery pad20 reject_all
       {| t_target := pad20 [x01]; t_seq := None; t_salt := [] |}
       (Some empty_reply) (tokenless n1) true
     = Returned (None, {| ResponseFrom := Some n1;
                          ClosestData := IString "" |}).
Proof. split; reflexivity. Qed.

(** ** The loop of Get *)

Lemma values_app vs ws : values (vs ++ ws) = values vs ++ values ws.
Proof. apply map_app. Qed.

(** Running the loop over mutable candidates: it reaches the rest of the
    trace holding [best], the latest of the candidates of greatest sequence
    when one of them is at least [cur], and [cur] itself otherwise. *)
Lemma Get_loop_mutables (vs : list FullGetResult) :
  forall cur : FullGetResult,
    Forall (fun v => Mutable v = true) vs ->
    exists best,
      (forall (got : bool) (tail : list Event),
          Get_loop cur got (values vs ++ tail)
          = Get_loop best (match vs with [] => got | _ => true end) tail)
      /\ Seq cur <= Seq best
      /\ Forall (fun v => Seq v <= Seq best) vs
      /\ ((best = cur /\ Forall (fun v => Seq v < Seq cur) vs)
          \/ exists pre post,
               vs = pre ++ best :: post
               /\ Forall (fun v => Seq v <= Seq best) pre
               /\ Forall (fun v => Seq v < Seq best) post).
Proof.
  induction vs as [| v vs IH]; intros cur Hm.
  - exists cur. simpl. repeat split; try lia; auto.
  - inversion Hm as [| ? ? Hv Hvs]; subst.
    destruct (IH (if Seq v >=? Seq cur then v else cur) Hvs)
      as (best & Hrun & Hle & Hall & Hcase).
    exists best.
    assert (Hstep : Seq cur <= Seq best /\ Seq v <= Seq best).
    { destruct (Z.geb_spec (Seq v) (Seq cur)); lia. }
    split.
    { intros got tail. simpl. rewrite Hv. simpl. rewrite Hrun.
      destruct vs; reflexivity. }
    split; [lia |].
    split; [constructor; [lia | assumption] |].
    destruct Hcase as [[Hb Hlt] | (pre & post & Hsplit & Hpre & Hpost)].
    + destruct (Z.geb_spec (Seq v) (Seq cur)) as [Hge | Hlt'].
      * right. exists [], vs. subst best. simpl. auto.
      * left. subst best. split; [reflexivity |].
        constructor; [lia | assumption].
    + right. exists (v :: pre), post. subst vs. simpl.
      repeat split; auto. constructor; [lia | assumption].
Qed.

(** Once a value has been received, only a cancellation makes the loop
    return an error. *)
Lemma Get_loop_got_no_error (evs : list Event) :
  forall cur r e,
    (forall c, ~ In (EvDone c) evs) ->
    Get_loop cur true evs = Returned (r, e) ->
    e = None.
Proof.
  induction evs as [| ev evs IH]; intros cur r e Hno H; simpl in H.
  - discriminate.
  - destruct ev as [| v | c].
    + now injection H as _ <-.
    + destruct (negb (Mutable v)).
      * now injection H as _ <-.
      * eapply IH; [| exact H]. intros c Hc. apply (Hno c). now right.
    + exfalso. apply (Hno c). now left.
Qed.

(** The loop returns whenever the traversal stalls at some point. *)
Lemma Get_loop_returns (vs : list FullGetResult) :
  forall cur got rest,
  exists r e, Get_loop cur got (values vs ++ EvStalled :: rest) = Returned (r, e).
Proof.
  induction vs as [| v vs IH]; intros cur got rest; simpl.
  - eauto.
  - destruct (negb (Mutable v)); [eauto | apply IH].
Qed.

(** In a round in which cancellation alone is ready, every choice of the
    runtime fires it. *)
Lemma select_any_only_cancel (choice : nat) (r : Round) (e : CtxError) :
  stalled r = false -> pending r = None -> ctx_done r = Some e ->
  select_any choice r = Some (EvDone e).
Proof.
  intros Hs Hp Hc. unfold select_any, ready_events.
  rewrite Hs, Hp, Hc.
  change (nth_error [EvDone e] (Nat.modulo choice 1) = Some (EvDone e)).
  now rewrite Nat.mod_1_r.
Qed.

(** What a [select] fires is one of the ready cases of the round. *)
Lemma select_any_ready (choice : nat) (r : Round) (ev : Event) :
  select_any choice r = Some ev -> In ev (ready_events r).
Proof. unfold select_any. apply nth_error_In. Qed.

(** A case that a round can fire is fired under some choice. *)
Lemma select_round_any (r : Round) (ev : Event) :
  select_round r = Some ev -> exists choice, select_any choice r = Some ev.
Proof.
  unfold select_round, select_any, ready_events.
  destruct r as [s p c k]; simpl.
  destruct k, s, p as [v |], c as [e |]; simpl; try discriminate;
    intros [= <-];
    first [ now exists 0%nat | now exists 1%nat | now exists 2%nat ].
Qed.

Section GetFacts.

Variable Stats : Type.
Variables (target : bytes) (seq : option Z) (salt : bytes) (st : Stats).

Lemma Get_started evs :
  Get target seq salt None st evs
  = match Get_loop initial_ret false evs with
    | Returned (r, e) => Returned {| ret := r; stats := Some st; err := e |}
    | Panicked => Panicked
    | Blocked => Blocked
    end.
Proof. reflexivity. Qed.

(** C3.  Over mutable candidates followed by the stall, [Get] returns
    without error the candidate of greatest sequence number, and among those
    of greatest sequence the one that arrived last: every candidate before
    it has a sequence at most its own, every candidate after it a strictly
    smaller one. *)
Theorem Get_returns_latest_of_greatest_seq :
  forall (vs : list FullGetResult) (rest : list Event),
    vs <> [] ->
    Forall (fun v => Mutable v = true /\ int64_ok (Seq v)) vs ->
    exists pre best post,
      vs = pre ++ best :: post
      /\ Forall (fun v => Seq v <= Seq best) pre
      /\ Forall (fun v => Seq v < Seq best) post
      /\ Get target seq salt None st (values vs ++ EvStalled :: rest)
         = Returned {| ret := best; stats := Some st; err := None |}.
Proof.
  intros vs rest Hne Hall.
  assert (Hm : Forall (fun v => Mutable v = true) vs).
  { eapply Forall_impl; [| exact Hall]. simpl. tauto. }
  destruct (Get_loop_mutables vs initial_ret Hm)
    as (best & Hrun & _ & _ & Hcase).
  destruct Hcase as [[_ Hlt] | (pre & post & Hsplit & Hpre & Hpost)].
  - destruct vs as [| v vs]; [contradiction |].
    inversion Hlt as [| ? ? Hv _]; inversion Hall as [| ? ? [_ Hok] _]; subst.
    unfold int64_ok in Hok. simpl in Hv. lia.
  - exists pre, best, post. repeat split; auto.
    rewrite Get_started, Hrun.
    destruct vs; [contradiction | reflexivity].
Qed.

(** C4.  An immutable candidate is returned as it is, without error, as
    soon as it arrives: whatever mutable candidates came before it, and
    whatever the trace holds after it. *)
Theorem Get_immutable_ends_loop :
  forall (pre : list FullGetResult) (v : FullGetResult) (rest : list Event),
    Forall (fun m => Mutable m = true) pre ->
    Mutable v = false ->
    Get target seq salt None st (values pre ++ EvValue v :: rest)
    = Returned {| ret := v; stats := Some st; err := None |}.
Proof.
  intros pre v rest Hm Hv.
  destruct (Get_loop_mutables pre initial_ret Hm) as (best & Hrun & _).
  rewrite Get_started, Hrun. simpl. rewrite Hv. reflexivity.
Qed.

(** C2, as the code has it.  When the [select] takes the cancellation
    case, [Get] returns the error of the context, whatever mutable
    candidates were received before.  In a round in which cancellation is
    the only ready case the [select] takes it, whatever the choice of the
    runtime, so [Get] returns the error of the context there; the
    cancellation case can fire in such a round, and nothing else can. *)
Theorem Get_cancel_case_returns_ctx_error :
  forall (vs : list FullGetResult) (e : CtxError) (rest : list Event)
         (r : Round) (choice : nat) (more : list (nat * Round)),
    Forall (fun v => Mutable v = true) vs ->
    stalled r = false -> pending r = None -> ctx_done r = Some e ->
    (exists item,
        Get target seq salt None st (values vs ++ EvDone e :: rest)
        = Returned {| ret := item; stats := Some st; err := Some (ErrCtx e) |}
        /\ Get target seq salt None st
               (values vs ++ events_any ((choice, r) :: more))
           = Returned {| ret := item; stats := Some st;
                         err := Some (ErrCtx e) |})
    /\ select_any choice r = Some (EvDone e)
    /\ select_round {| stalled := stalled r; pending := pending r;
                       ctx_done := ctx_done r; pick := CaseDone |}
       = Some (EvDone e)
    /\ (forall ev, select_round r = Some ev -> ev = EvDone e).
Proof.
  intros vs e rest r choice more Hm Hs Hp Hc.
  assert (Hsel : select_any choice r = Some (EvDone e))
    by now apply select_any_only_cancel.
  split; [| split; [exact Hsel | split]].
  - destruct (Get_loop_mutables vs initial_ret Hm) as (best & Hrun & _).
    exists best. simpl. rewrite Hsel.
    rewrite !Get_started, !Hrun. split; reflexivity.
  - unfold select_round. simpl. now rewrite Hc.
  - intros ev. unfold select_round.
    rewrite Hs, Hp, Hc. destruct (pick r); simpl; congruence.
Qed.

(** C9, as the code has it.  On cancellation [Get] returns the error of the
    context together with the item recorded so far, the very item a stall at
    that point would have returned.  With no candidate received this is the
    initial item, whose sequence is [MinInt64]; otherwise it is the best
    mutable candidate received: the latest of those of greatest sequence. *)
Theorem Get_cancel_keeps_recorded_item :
  forall (vs : list FullGetResult) (e : CtxError) (rest rest' : list Event),
    Forall (fun v => Mutable v = true) vs ->
    exists item stall_err,
      Get target seq salt None st (values vs ++ EvDone e :: rest)
      = Returned {| ret := item; stats := Some st; err := Some (ErrCtx e) |}
      /\ Get target seq salt None st (values vs ++ EvStalled :: rest')
         = Returned {| ret := item; stats := Some st; err := stall_err |}
      /\ (vs = [] -> item = initial_ret)
      /\ (vs <> [] ->
          Forall (fun v => int64_ok (Seq v)) vs ->
          exists pre post,
            vs = pre ++ item :: post
            /\ Forall (fun v => Seq v <= Seq item) pre
            /\ Forall (fun v => Seq v < Seq item) post).
Proof.
  intros vs e rest rest' Hm.
  destruct (Get_loop_mutables vs initial_ret Hm)
    as (best & Hrun & _ & _ & Hcase).
  exists best, (match vs with [] => Some ErrValueNotFound | _ => None end).
  rewrite !Get_started, !Hrun. simpl.
  split; [reflexivity |].
  split; [destruct vs; reflexivity |].
  split.
  - intros ->.
    destruct Hcase as [[Hb _] | (pre & post & Hsplit & _)]; [exact Hb |].
    destruct pre; discriminate.
  - intros Hne Hok.
    destruct Hcase as [[_ Hlt] | (pre & post & Hsplit & Hpre & Hpost)].
    + destruct vs as [| v vs]; [contradiction |].
      inversion Hlt as [| ? ? Hv _]; inversion Hok as [| ? ? Hv' _]; subst.
      unfold int64_ok in Hv'. simpl in Hv. lia.
    + exists pre, post. auto.
Qed.

End GetFacts.

Section GetErrors.

Variable Stats : Type.
Variables (target : bytes) (seq : option Z) (salt : bytes) (st : Stats).

(** C7.  Without cancellation, [Get] returns the error "value not found"
    exactly when the traversal started and the first thing the loop saw was
    the stall; after a first candidate it returns no error.  [Get] does
    return on every trace in which the traversal stalls, and when the stall
    comes after mutable candidates it returns the recorded one, the latest
    of those of greatest sequence, without error.  ([start_err] is the error
    of the starting nodes; it is never the error value that [Get] makes
    itself.) *)
Theorem Get_not_found_iff_stalled_empty :
  forall (start_err : option error) (evs : list Event),
    start_err <> Some ErrValueNotFound ->
    (forall c, ~ In (EvDone c) evs) ->
    (forall res,
        Get target seq salt start_err st evs = Returned res ->
        (err res = Some ErrValueNotFound
         <-> start_err = None /\ exists rest, evs = EvStalled :: rest)
        /\ (forall v evs',
              start_err = None -> evs = EvValue v :: evs' -> err res = None))
    /\ (start_err = None ->
        forall vs rest,
          evs = values vs ++ EvStalled :: rest ->
          exists res, Get target seq salt start_err st evs = Returned res)
    /\ (start_err = None ->
        forall vs rest,
          evs = values vs ++ EvStalled :: rest ->
          vs <> [] ->
          Forall (fun v => Mutable v = true /\ int64_ok (Seq v)) vs ->
          exists pre best post,
            vs = pre ++ best :: post
            /\ Forall (fun v => Seq v <= Seq best) pre
            /\ Forall (fun v => Seq v < Seq best) post
            /\ Get target seq salt start_err st evs
               = Returned {| ret := best; stats := Some st; err := None |})
    /\ (start_err = None ->
        forall pre v rest,
          evs = values pre ++ EvValue v :: rest ->
          Forall (fun m => Mutable m = true) pre ->
          Mutable v = false ->
          Get target seq salt start_err st evs
          = Returned {| ret := v; stats := Some st; err := None |}).
Proof.
  intros start_err evs Hfresh Hno. split; [| split; [| split]].
  - intros res Hres. destruct start_err as [e |].
    + injection Hres as <-. simpl. split.
      * split; [congruence | intros [H _]; discriminate].
      * discriminate.
    + rewrite Get_started in Hres.
      destruct evs as [| [| v | c] evs]; simpl in Hres.
      * discriminate.
      * injection Hres as <-. simpl. split; [| discriminate].
        split; eauto.
      * assert (Herr : err res = None).
        { destruct (negb (Mutable v)).
          - now injection Hres as <-.
          - destruct (Get_loop _ true evs) as [[r e] | |] eqn:Hloop;
              try discriminate.
            injection Hres as <-. simpl.
            eapply Get_loop_got_no_error; [| exact Hloop].
            intros c Hc. apply (Hno c). now right. }
        split; [| auto]. rewrite Herr.
        split; [discriminate | intros [_ [rest H]]; discriminate].
      * exfalso. apply (Hno c). now left.
  - intros -> vs rest ->. rewrite Get_started.
    destruct (Get_loop_returns vs initial_ret false rest) as (r & e & H).
    rewrite H. eauto.
  - intros -> vs rest -> Hne Hall.
    assert (Hm : Forall (fun v => Mutable v = true) vs).
    { eapply Forall_impl; [| exact Hall]. simpl. tauto. }
    destruct (Get_loop_mutables vs initial_ret Hm)
      as (best & Hrun & _ & _ & Hcase).
    destruct Hcase as [[_ Hlt] | (pre & post & Hsplit & Hpre & Hpost)].
    + destruct vs as [| v vs]; [contradiction |].
      inversion Hlt as [| ? ? Hv _]; inversion Hall as [| ? ? [_ Hok] _]; subst.
      unfold int64_ok in Hok. simpl in Hv. lia.
    + exists pre, best, post. repeat split; auto.
      rewrite Get_started, Hrun.
      destruct vs; [contradiction | reflexivity].
  - intros -> pre v rest -> Hm Hv.
    destruct (Get_loop_mutables pre initial_ret Hm) as (best & Hrun & _).
    rewrite Get_started, Hrun. simpl. rewrite Hv. reflexivity.
Qed.

End GetErrors.

(** ** Put *)

Section PutFacts.

Variables Stats PutItem : Type.
Variables (target salt : bytes) (seqToPut : Z -> PutItem) (st : Stats).
Variable sPut : NodeAddr -> PutItem -> string -> option error.

(** The discovery loop ends at the first stall or cancellation, with the
    greatest sequence of the mutable candidates seen, and with 0 when none
    of them is positive. *)
Lemma Put_loop_values (vs : list FullGetResult) :
  forall (autoSeq : Z) (tail : list Event),
  exists top,
    Put_loop autoSeq (values vs ++ tail) = Put_loop top tail
    /\ autoSeq <= top
    /\ Forall (fun v => Mutable v = true -> Seq v <= top) vs
    /\ (top = autoSeq
        \/ exists v, In v vs /\ Mutable v = true /\ Seq v = top).
Proof.
  induction vs as [| v vs IH]; intros autoSeq tail.
  - exists autoSeq. simpl. repeat split; auto; lia.
  - simpl.
    set (next := if Mutable v && (Seq v >? autoSeq) then Seq v else autoSeq).
    assert (Hnext : autoSeq <= next
                    /\ (Mutable v = true -> Seq v <= next)
                    /\ (next = autoSeq \/ (Mutable v = true /\ Seq v = next))).
    { subst next. destruct (Mutable v); simpl.
      - destruct (Z.gtb_spec (Seq v) autoSeq); repeat split; auto; lia.
      - repeat split; auto; try lia; discriminate. }
    destruct Hnext as (Hn1 & Hn2 & Hn3).
    destruct (IH next tail) as (top & Hrun & Hle & Hall & Hcase).
    exists top. rewrite Hrun. split; [reflexivity |].
    split; [lia |].
    split; [constructor; [intros Hm; specialize (Hn2 Hm); lia | assumption] |].
    destruct Hcase as [Htop | (w & Hin & Hw & Hs)].
    + destruct Hn3 as [Heq | [Hm Heq]].
      * left. congruence.
      * right. exists v. repeat split; auto. congruence.
    + right. exists w. auto.
Qed.

(** With a string token on every element, each element is written to once,
    and the error left in [err] is that of the last write to finish. *)
Lemma fan_out_tokens (put : PutItem) (closest : list Elem) :
  forall err0,
    Forall (fun el => exists token, Data el = IString token) closest ->
    exists log,
      fan_out sPut put closest err0
      = Returned (log, match rev closest with
                       | [] => err0
                       | el :: _ => sPut (Addr el) put (assert_string_ok (Data el))
                       end)
      /\ builds log = 0%nat
      /\ writes log = List.length closest
      /\ forall el, In el closest ->
           In (ActWrite (Addr el) put (assert_string_ok (Data el))) log.
Proof.
  induction closest as [| el closest IH]; intros err0 Hall.
  - exists []. simpl. repeat split. intros el [].
  - inversion Hall as [| ? ? [token Htok] Hrest]; subst.
    destruct (IH (sPut (Addr el) put token) Hrest)
      as (log & Hrun & Hb & Hw & Hin).
    simpl. rewrite Htok. simpl. rewrite Hrun.
    eexists. split.
    { f_equal. f_equal.
      destruct (rev closest) as [| l ls] eqn:Hrev; simpl.
      - rewrite Htok. reflexivity.
      - reflexivity. }
    unfold builds, writes in *. simpl.
    split; [destruct (sPut (Addr el) put token); simpl; exact Hb |].
    split; [destruct (sPut (Addr el) put token); simpl; now rewrite Hw |].
    intros el' [<- | Hel].
    + rewrite Htok. simpl. now left.
    + right. right. now apply Hin.
Qed.

End PutFacts.

Section PutRuns.

Variables Stats PutItem : Type.
Variables (target salt : bytes) (seqToPut : Z -> PutItem) (st : Stats).
Variable sPut : NodeAddr -> PutItem -> string -> option error.

(** What [Put] does once its discovery loop has ended with [top] and
    [err0], every element of the closest set carrying a string. *)
Lemma Put_after_discovery evs closest top err0 :
  Put_loop 0 evs = Returned (top, err0) ->
  Forall (fun el => exists token, Data el = IString token) closest ->
  exists log,
    Put target salt seqToPut None st evs closest sPut
    = Returned
        {| p_stats := Some st;
           p_err := match rev closest with
                    | [] => err0
                    | el :: _ =>
                      sPut (Addr el) (seqToPut top) (assert_string_ok (Data el))
                    end;
           p_log := ActStart {| t_target := target; t_seq := None;
                                t_salt := salt |}
                    :: ActStop :: ActBuild top :: log |}
    /\ builds log = 0%nat
    /\ writes log = List.length closest
    /\ forall el, In el closest ->
         In (ActWrite (Addr el) (seqToPut top) (assert_string_ok (Data el))) log.
Proof.
  intros Hloop Htok.
  destruct (fan_out_tokens PutItem sPut (seqToPut top) closest err0 Htok)
    as (log & Hrun & Hb & Hw & Hin).
  exists log. unfold Put, startGetTraversal.
  rewrite Hloop, Hrun. auto.
Qed.

(** C8, as the code has it.  When the starting nodes fail, [Put] returns
    their error at once: no stop, no call of the builder, no write.  Once
    the traversal has started and the discovery loop ends, on stall or on
    cancellation, the traversal was started with no sequence, so every
    query goes out without one, and the item builder is called exactly
    once, with [top]: the greatest of 0 and the sequence numbers of the
    mutable candidates received.  [top] is 0 when there was no mutable
    candidate. *)
Theorem Put_builds_once_with_greatest_seq_or_zero :
  (forall (e : error) (evs : list Event) (closest : list Elem),
      Put target salt seqToPut (Some e) st evs closest sPut
      = Returned {| p_stats := None; p_err := Some e;
                    p_log := [ActStart {| t_target := target; t_seq := None;
                                          t_salt := salt |}] |})
  /\ (forall (vs : list FullGetResult) (ev : Event) (rest : list Event)
             (closest : list Elem),
        ev = EvStalled \/ (exists c, ev = EvDone c) ->
        Forall (fun el => exists token, Data el = IString token) closest ->
        exists res t top log,
          Put target salt seqToPut None st (values vs ++ ev :: rest)
              closest sPut
          = Returned res
          /\ p_log res = ActStart t :: ActStop :: ActBuild top :: log
          /\ (forall addr, q_seq (DoQuery_request t addr) = None)
          /\ builds (p_log res) = 1%nat
          /\ 0 <= top
          /\ Forall (fun v => Mutable v = true -> Seq v <= top) vs
          /\ (top = 0
              \/ exists v, In v vs /\ Mutable v = true /\ Seq v = top)
          /\ (Forall (fun v => Mutable v = false) vs -> top = 0)).
Proof.
  split; [reflexivity |].
  intros vs ev rest closest Hev Htok.
  destruct (Put_loop_values vs 0 (ev :: rest))
    as (top & Hrun & Hle & Hall & Hcase).
  assert (Hend : exists err0, Put_loop top (ev :: rest) = Returned (top, err0)).
  { destruct Hev as [-> | [c ->]]; simpl; eauto. }
  destruct Hend as [err0 Hend]. rewrite Hend in Hrun.
  destruct (Put_after_discovery _ closest top err0 Hrun Htok)
    as (log & Hput & Hb & _).
  eexists _, _, top, log. split; [exact Hput |]. simpl.
  split; [reflexivity |].
  split; [reflexivity |].
  split; [unfold builds in *; simpl; now rewrite Hb |].
  split; [assumption |].
  split; [assumption |].
  split; [assumption |].
  intros Himm. destruct Hcase as [-> | (v & Hin & Hm & _)]; [reflexivity |].
  rewrite Forall_forall in Himm. specialize (Himm v Hin). congruence.
Qed.

(** What [Put] does after its discovery loop has ended on [ev]. *)
Lemma Put_after_loop_end vs ev rest closest err0 :
  (forall a, Put_loop a (ev :: rest) = Returned (a, err0)) ->
  Forall (fun el => exists token, Data el = IString token) closest ->
  exists res top,
    Put target salt seqToPut None st (values vs ++ ev :: rest) closest sPut
    = Returned res
    /\ Put_loop 0 (values vs ++ ev :: rest) = Returned (top, err0)
    /\ In ActStop (p_log res)
    /\ In (ActBuild top) (p_log res)
    /\ builds (p_log res) = 1%nat
    /\ writes (p_log res) = List.length closest
    /\ (forall el, In el closest ->
          In (ActWrite (Addr el) (seqToPut top)
                (assert_string_ok (Data el))) (p_log res))
    /\ (closest = [] -> p_err res = err0).
Proof.
  intros Hend Htok.
  destruct (Put_loop_values vs 0 (ev :: rest)) as (top & Hrun & _).
  rewrite Hend in Hrun.
  destruct (Put_after_discovery _ closest top _ Hrun Htok)
    as (log & Hput & Hb & Hw & Hin).
  eexists _, top. split; [exact Hput |]. simpl.
  split; [exact Hrun |].
  split; [auto |].
  split; [auto |].
  split; [unfold builds in *; simpl; now rewrite Hb |].
  split; [unfold writes in *; simpl; exact Hw |].
  split; [intros el Hel; do 3 right; now apply Hin |].
  intros ->. reflexivity.
Qed.

(** C5, as the code has it.  A context cancelled during discovery does not
    abort [Put].  When the loop takes the cancellation case, and it does
    whenever no stall is ready, [Put] goes on: it stops the traversal,
    calls the item builder once with the sequence learnt so far and issues
    one write for every element of the closest set; with an empty closest
    set the error returned is that of the context.  When the stall is ready
    too, the loop takes one of the two; taking the stall, [Put] does the
    same and, with an empty closest set, returns no error. *)
Theorem Put_cancelled_still_builds_and_writes :
  forall (vs : list FullGetResult) (c : CtxError) (rest : list Event)
         (r : Round) (choice : nat) (more : list (nat * Round))
         (closest : list Elem),
    ctx_done r = Some c ->
    pending r = None ->
    Forall (fun el => exists token, Data el = IString token) closest ->
    (exists res top,
        Put target salt seqToPut None st (values vs ++ EvDone c :: rest)
            closest sPut
        = Returned res
        /\ Put_loop 0 (values vs ++ EvDone c :: rest)
           = Returned (top, Some (ErrCtx c))
        /\ In ActStop (p_log res)
        /\ In (ActBuild top) (p_log res)
        /\ builds (p_log res) = 1%nat
        /\ writes (p_log res) = List.length closest
        /\ (forall el, In el closest ->
              In (ActWrite (Addr el) (seqToPut top)
                    (assert_string_ok (Data el))) (p_log res))
        /\ (closest = [] -> p_err res = Some (ErrCtx c)))
    /\ (exists ev res top,
          select_any choice r = Some ev
          /\ (ev = EvDone c \/ (ev = EvStalled /\ stalled r = true))
          /\ Put target salt seqToPut None st
                 (values vs ++ events_any ((choice, r) :: more)) closest sPut
             = Returned res
          /\ In ActStop (p_log res)
          /\ In (ActBuild top) (p_log res)
          /\ builds (p_log res) = 1%nat
          /\ writes (p_log res) = List.length closest
          /\ (forall el, In el closest ->
                In (ActWrite (Addr el) (seqToPut top)
                      (assert_string_ok (Data el))) (p_log res))
          /\ (closest = [] ->
              p_err res = match ev with
                          | EvDone c' => Some (ErrCtx c')
                          | _ => None
                          end)).
Proof.
  intros vs c rest r choice more closest Hc Hp Htok. split.
  - apply Put_after_loop_end; [reflexivity | exact Htok].
  - assert (Hsel : select_any choice r = Some (EvDone c)
                   \/ (select_any choice r = Some EvStalled
                       /\ stalled r = true)).
    { unfold select_any, ready_events. rewrite Hc, Hp.
      destruct (stalled r).
      - change (nth_error [EvStalled; EvDone c] (Nat.modulo choice 2)
                = Some (EvDone c)
                \/ (nth_error [EvStalled; EvDone c] (Nat.modulo choice 2)
                    = Some EvStalled /\ true = true)).
        pose proof (Nat.mod_upper_bound choice 2) as Hlt.
        destruct (Nat.modulo choice 2) as [| [| n]]; simpl; auto.
        exfalso. lia.
      - left.
        change (nth_error [EvDone c] (Nat.modulo choice 1) = Some (EvDone c)).
        now rewrite Nat.mod_1_r. }
    destruct Hsel as [Hsel | [Hsel Hst]].
    + destruct (Put_after_loop_end vs (EvDone c) (events_any more) closest
                  (Some (ErrCtx c)) (fun a => eq_refl) Htok)
        as (res & top & Hput & _ & H).
      exists (EvDone c), res, top. simpl. rewrite Hsel.
      split; [reflexivity |]. split; [now left |]. split; [exact Hput |].
      exact H.
    + destruct (Put_after_loop_end vs EvStalled (events_any more) closest
                  None (fun a => eq_refl) Htok)
        as (res & top & Hput & _ & H).
      exists EvStalled, res, top. simpl. rewrite Hsel.
      split; [reflexivity |]. split; [right; auto |]. split; [exact Hput |].
      exact H.
Qed.

End PutRuns.

(** ** Concrete runs *)

(** The example of the specification: of 5, 3, 7, 7 the second 7 wins. *)
Example Get_5_3_7_7 :
  Get [] None [] None tt (values seqs_5_3_7_7 ++ [EvStalled])
  = Returned {| ret := mutable_item 7 [x04]; stats := Some tt; err := None |}.
Proof. reflexivity. Qed.

(** [Get_returns_latest_of_greatest_seq] at a concrete run. *)
Lemma Get_returns_latest_of_greatest_seq_witness :
  exists pre best post,
    seqs_5_3_7_7 = pre ++ best :: post
    /\ Forall (fun v => Seq v <= Seq best) pre
    /\ Forall (fun v => Seq v < Seq best) post
    /\ Get [] None [] None tt (values seqs_5_3_7_7 ++ [EvStalled])
       = Returned {| ret := best; stats := Some tt; err := None |}.
Proof.
  apply (Get_returns_latest_of_greatest_seq unit [] None [] tt seqs_5_3_7_7 []).
  - discriminate.
  - unfold seqs_5_3_7_7, int64_ok, MinInt64, MaxInt64.
    repeat constructor; simpl; lia.
Defined.

(** [Get_immutable_ends_loop] at a concrete run. *)
Lemma Get_immutable_ends_loop_witness :
  Get [] None [] None tt
      (values [mutable_item 9 [x01]] ++ EvValue (immutable_item [x02])
         :: [EvValue (mutable_item 100 [x03]); EvStalled])
  = Returned {| ret := immutable_item [x02]; stats := Some tt; err := None |}.
Proof.
  apply (Get_immutable_ends_loop unit [] None [] tt [mutable_item 9 [x01]]).
  - repeat constructor.
  - reflexivity.
Defined.

(** [Get_cancel_case_returns_ctx_error] at a concrete run: a candidate of
    sequence 5, then a round in which only the cancellation is ready. *)
Lemma Get_cancel_case_returns_ctx_error_witness :
  (exists item,
      Get [] None [] None tt (values [mutable_item 5 [x01]] ++ [EvDone Canceled])
      = Returned {| ret := item; stats := Some tt;
                    err := Some (ErrCtx Canceled) |}
      /\ Get [] None [] None tt
             (values [mutable_item 5 [x01]]
                ++ events_any [(7%nat, cancelled_only)])
         = Returned {| ret := item; stats := Some tt;
                       err := Some (ErrCtx Canceled) |})
  /\ select_any 7 cancelled_only = Some (EvDone Canceled)
  /\ select_round {| stalled := stalled cancelled_only;
                     pending := pending cancelled_only;
                     ctx_done := ctx_done cancelled_only; pick := CaseDone |}
     = Some (EvDone Canceled)
  /\ (forall ev, select_round cancelled_only = Some ev -> ev = EvDone Canceled).
Proof.
  apply (Get_cancel_case_returns_ctx_error unit [] None [] tt
           [mutable_item 5 [x01]] Canceled [] cancelled_only 7%nat []).
  - repeat constructor.
  - reflexivity.
  - reflexivity.
  - reflexivity.
Defined.

(** C2, the claim as written fails: the traversal has stalled and the
    context is cancelled; the [select] may take the stall, and [Get] then
    returns "value not found", not the error of the context. *)
Lemma Get_stall_taken_though_cancelled :
  ctx_done (stalled_and_cancelled CaseStalled) = Some Canceled
  /\ select_round (stalled_and_cancelled CaseStalled) = Some EvStalled
  /\ Get [] None [] None tt (events_of [stalled_and_cancelled CaseStalled])
     = Returned {| ret := initial_ret; stats := Some tt;
                   err := Some ErrValueNotFound |}.
Proof. repeat split. Qed.

(** [Get_cancel_keeps_recorded_item] at a concrete run. *)
Lemma Get_cancel_keeps_recorded_item_witness :
  exists item stall_err,
    Get [] None [] None tt (values seqs_5_3_7_7 ++ [EvDone Canceled])
    = Returned {| ret := item; stats := Some tt; err := Some (ErrCtx Canceled) |}
    /\ Get [] None [] None tt (values seqs_5_3_7_7 ++ [EvStalled])
       = Returned {| ret := item; stats := Some tt; err := stall_err |}
    /\ (seqs_5_3_7_7 = [] -> item = initial_ret)
    /\ (seqs_5_3_7_7 <> [] ->
        Forall (fun v => int64_ok (Seq v)) seqs_5_3_7_7 ->
        exists pre post,
          seqs_5_3_7_7 = pre ++ item :: post
          /\ Forall (fun v => Seq v <= Seq item) pre
          /\ Forall (fun v => Seq v < Seq item) post).
Proof.
  apply (Get_cancel_keeps_recorded_item unit [] None [] tt
           seqs_5_3_7_7 Canceled [] []).
  repeat constructor.
Defined.

(** C9, the claim as written fails: cancelled after a mutable candidate of
    sequence 5, [Get] returns the error of the context and that candidate
    as its item. *)
Lemma Get_cancelled_returns_recorded_candidate :
  Get [] None [] None tt (values [mutable_item 5 [x01]] ++ [EvDone Canceled])
  = Returned {| ret := mutable_item 5 [x01]; stats := Some tt;
                err := Some (ErrCtx Canceled) |}.
Proof. reflexivity. Qed.

(** [Get_not_found_iff_stalled_empty] at two concrete runs: the stall
    alone, and the stall after the candidates 5, 3, 7, 7. *)
Lemma Get_not_found_iff_stalled_empty_witness :
  (exists res,
      Get [] None [] None tt [EvStalled] = Returned res
      /\ err res = Some ErrValueNotFound)
  /\ (exists pre best post,
        seqs_5_3_7_7 = pre ++ best :: post
        /\ Forall (fun v => Seq v <= Seq best) pre
        /\ Forall (fun v => Seq v < Seq best) post
        /\ Get [] None [] None tt (values seqs_5_3_7_7 ++ [EvStalled])
           = Returned {| ret := best; stats := Some tt; err := None |}).
Proof.
  split.
  - destruct (Get_not_found_iff_stalled_empty unit [] None [] tt None
                [EvStalled]) as (H1 & H2 & _).
    + discriminate.
    + intros c [H | []]. discriminate.
    + destruct (H2 eq_refl [] [] eq_refl) as [res Hres].
      exists res. split; [exact Hres |].
      apply (H1 res Hres). split; [reflexivity | now exists []].
  - destruct (Get_not_found_iff_stalled_empty unit [] None [] tt None
                (values seqs_5_3_7_7 ++ [EvStalled])) as (_ & _ & H3 & _).
    + discriminate.
    + intros c H. simpl in H.
      repeat (destruct H as [H | H]; [discriminate |]). exact H.
    + apply (H3 eq_refl seqs_5_3_7_7 [] eq_refl).
      * discriminate.
      * unfold seqs_5_3_7_7, int64_ok, MinInt64, MaxInt64.
        repeat constructor; simpl; lia.
Defined.

(** C1, the code at a put whose discovery stalled and whose only write is
    refused: the error of the write is what [Put] returns. *)
Theorem Put_returns_error_of_write :
  Put [] [] next_seq None tt [EvStalled] [node n1 "t"] refuse
  = Returned
      {| p_stats := Some tt;
         p_err := Some (ErrOther "refused");
         p_log := [ActStart {| t_target := []; t_seq := None; t_salt := [] |};
                   ActStop; ActBuild 0; ActWrite n1 1 "t";
                   ActWarn n1 "t" (ErrOther "refused")] |}.
Proof. reflexivity. Qed.

(** [Put_cancelled_still_builds_and_writes] at a concrete run: the context
    is cancelled and the traversal has stalled. *)
Lemma Put_cancelled_still_builds_and_writes_witness :
  (exists res,
      Put [] [] next_seq None tt (values [] ++ [EvDone Canceled])
          [node n1 "t"] write_cancelled
      = Returned res
      /\ builds (p_log res) = 1%nat
      /\ writes (p_log res) = 1%nat)
  /\ (exists res,
        Put [] [] next_seq None tt
            (values [] ++ events_any [(0%nat, stalled_and_cancelled CaseDone)])
            [node n1 "t"] write_cancelled
        = Returned res
        /\ builds (p_log res) = 1%nat
        /\ writes (p_log res) = 1%nat).
Proof.
  destruct (Put_cancelled_still_builds_and_writes unit Z [] [] next_seq tt
              write_cancelled [] Canceled []
              (stalled_and_cancelled CaseDone) 0%nat [] [node n1 "t"])
    as [(res & top & Hput & _ & _ & _ & Hb & Hw & _)
        (ev & res' & top' & _ & _ & Hput' & _ & _ & Hb' & Hw' & _)].
  - reflexivity.
  - reflexivity.
  - repeat constructor. exists "t"%string. reflexivity.
  - split; [exists res | exists res']; auto.
Defined.

(** C5, the claim as written fails: cancelled before anything arrived,
    [Put] still calls the builder and still writes to the closest node. *)
Lemma Put_cancelled_run :
  Put [] [] next_seq None tt [EvDone Canceled] [node n1 "t"] write_cancelled
  = Returned
      {| p_stats := Some tt;
         p_err := Some (ErrCtx Canceled);
         p_log := [ActStart {| t_target := []; t_seq := None; t_salt := [] |};
                   ActStop; ActBuild 0; ActWrite n1 1 "t";
                   ActWarn n1 "t" (ErrCtx Canceled)] |}.
Proof. reflexivity. Qed.

(** [Put_builds_once_with_greatest_seq_or_zero] at two concrete runs: the
    starting nodes fail, and the candidates 5, 3, 7, 7 before the stall. *)
Lemma Put_builds_once_with_greatest_seq_or_zero_witness :
  Put [] [] next_seq (Some no_starting_nodes) tt
      (values seqs_5_3_7_7 ++ [EvStalled]) [node n1 "t"] accept
  = Returned {| p_stats := None; p_err := Some no_starting_nodes;
                p_log := [ActStart {| t_target := []; t_seq := None;
                                      t_salt := [] |}] |}
  /\ exists res t top log,
       Put [] [] next_seq None tt (values seqs_5_3_7_7 ++ [EvStalled])
           [node n1 "t"] accept
       = Returned res
       /\ p_log res = ActStart t :: ActStop :: ActBuild top :: log
       /\ (forall addr, q_seq (DoQuery_request t addr) = None)
       /\ builds (p_log res) = 1%nat
       /\ 0 <= top
       /\ Forall (fun v => Mutable v = true -> Seq v <= top) seqs_5_3_7_7
       /\ (top = 0
           \/ exists v, In v seqs_5_3_7_7 /\ Mutable v = true /\ Seq v = top)
       /\ (Forall (fun v => Mutable v = false) seqs_5_3_7_7 -> top = 0).
Proof.
  split.
  - apply (proj1 (Put_builds_once_with_greatest_seq_or_zero unit Z [] []
                    next_seq tt accept)).
  - apply (proj2 (Put_builds_once_with_greatest_seq_or_zero unit Z [] []
                    next_seq tt accept) seqs_5_3_7_7 EvStalled [] [node n1 "t"]).
    + left. reflexivity.
    + repeat constructor. exists "t"%string. reflexivity.
Defined.

(** C8, the claim as written fails.  The only mutable candidate seen has
    sequence -1, and the builder is called with 0, not with -1; and when
    the starting nodes cannot be had, [Put] returns before the builder is
    called at all. *)
Lemma Put_builder_not_given_negative_seq :
  Put [] [] next_seq None tt (values [mutable_item (-1) [x01]] ++ [EvStalled])
      [] accept
  = Returned
      {| p_stats := Some tt; p_err := None;
         p_log := [ActStart {| t_target := []; t_seq := None; t_salt := [] |};
                   ActStop; ActBuild 0] |}
  /\ Put [] [] next_seq (Some no_starting_nodes) tt [EvStalled] [] accept
     = Returned
         {| p_stats := None; p_err := Some no_starting_nodes;
            p_log := [ActStart {| t_target := []; t_seq := None;
                                  t_salt := [] |}] |}.
Proof. split; reflexivity. Qed.

(** * Further properties of the loops *)

(** ** When Get and Put return *)

Lemma Get_loop_never_panics (evs : list Event) :
  forall cur got, Get_loop cur got evs <> Panicked.
Proof.
  induction evs as [| [| v | c] evs IH]; intros cur got; simpl;
    try discriminate.
  destruct (negb (Mutable v)); [discriminate | apply IH].
Qed.

Lemma Get_loop_blocked_iff (evs : list Event) :
  forall cur got,
    Get_loop cur got evs = Blocked <-> forallb is_mutable_value evs = true.
Proof.
  induction evs as [| [| v | c] evs IH]; intros cur got; simpl.
  - tauto.
  - split; discriminate.
  - destruct (Mutable v); simpl.
    + apply IH.
    + split; discriminate.
  - split; discriminate.
Qed.

Lemma Put_loop_never_panics (evs : list Event) :
  forall a, Put_loop a evs <> Panicked.
Proof.
  induction evs as [| [| v | c] evs IH]; intros a; simpl; try discriminate.
  apply IH.
Qed.

Lemma Put_loop_blocked_iff (evs : list Event) :
  forall a, Put_loop a evs = Blocked <-> forallb is_value evs = true.
Proof.
  induction evs as [| [| v | c] evs IH]; intros a; simpl.
  - tauto.
  - split; discriminate.
  - apply IH.
  - split; discriminate.
Qed.

Section Termination.

Variables Stats PutItem : Type.
Variables (target salt : bytes) (seq : option Z) (st : Stats).
Variable seqToPut : Z -> PutItem.
Variable sPut : NodeAddr -> PutItem -> string -> option error.

(** X1.  Given the events its [select] takes, [Get] returns exactly when
    the starting nodes failed or the events hold something other than the
    receipt of a mutable candidate: a stall, a cancellation or an immutable
    candidate.  Over mutable candidates alone its loop goes on waiting. *)
Theorem Get_returns_iff :
  forall (start_err : option error) (evs : list Event),
    ((exists res, Get target seq salt start_err st evs = Returned res)
     <-> start_err <> None
         \/ existsb (fun ev => negb (is_mutable_value ev)) evs = true)
    /\ (Get target seq salt start_err st evs = Blocked
        <-> start_err = None /\ forallb is_mutable_value evs = true).
Proof.
  intros start_err evs.
  destruct start_err as [e |].
  - split.
    + split; [intros _; left; discriminate | intros _; eexists; reflexivity].
    + split; [discriminate | intros [H _]; discriminate].
  - rewrite Get_started.
    pose proof (Get_loop_never_panics evs initial_ret false) as Hnp.
    pose proof (Get_loop_blocked_iff evs initial_ret false) as Hb.
    destruct (Get_loop initial_ret false evs) as [[r e] | |] eqn:Hloop.
    + assert (Hex : existsb (fun ev => negb (is_mutable_value ev)) evs = true).
      { destruct (existsb _ evs) eqn:Hex; [reflexivity |].
        assert (Hall : forallb is_mutable_value evs = true).
        { apply forallb_forall. intros ev Hin.
          destruct (is_mutable_value ev) eqn:Hm; [reflexivity |].
          assert (existsb (fun ev => negb (is_mutable_value ev)) evs = true).
          { apply existsb_exists. exists ev. now rewrite Hm. }
          congruence. }
        apply Hb in Hall. discriminate. }
      split.
      * split; [auto | eauto].
      * split; [discriminate |]. intros [_ Hall].
        apply Hb in Hall. discriminate.
    + contradiction.
    + assert (Hall : forallb is_mutable_value evs = true) by now apply Hb.
      split; [| tauto]. split.
      * intros [res H]. discriminate.
      * intros [H | H]; [contradiction |].
        exfalso. apply existsb_exists in H. destruct H as (ev & Hin & Hev).
        rewrite forallb_forall in Hall. rewrite (Hall ev Hin) in Hev.
        discriminate.
Qed.

(** The writes panic exactly when some element carries no string; they
    never wait. *)
Lemma fan_out_outcome (put : PutItem) (closest : list Elem) :
  forall err0,
    (fan_out sPut put closest err0 = Panicked
     <-> existsb (fun el => negb (has_token el)) closest = true)
    /\ fan_out sPut put closest err0 <> Blocked.
Proof.
  induction closest as [| el closest IH]; intros err0; simpl.
  - split; [split; discriminate | discriminate].
  - unfold has_token at 1.
    destruct (Data el) as [| token |]; simpl;
      try (split; [tauto | discriminate]).
    destruct (IH (sPut (Addr el) put token)) as [Hp Hb].
    destruct (fan_out sPut put closest (sPut (Addr el) put token))
      as [[log e] | |].
    + split; [| discriminate]. rewrite <- Hp. split; discriminate.
    + split; [| discriminate]. rewrite <- Hp. tauto.
    + contradiction.
Qed.

(** X2.  Given the events its [select] takes, [Put] goes on waiting
    exactly when the traversal has started and the events hold candidates
    only.  No candidate ends its loop: not an immutable one either, which
    would end the loop of [Get]. *)
Theorem Put_waits_iff :
  forall (start_err : option error) (evs : list Event) (closest : list Elem),
    Put target salt seqToPut start_err st evs closest sPut = Blocked
    <-> start_err = None /\ forallb is_value evs = true.
Proof.
  intros start_err evs closest.
  unfold Put, startGetTraversal.
  destruct start_err as [e |].
  - split; [discriminate | intros [H _]; discriminate].
  - pose proof (Put_loop_never_panics evs 0) as Hnp.
    pose proof (Put_loop_blocked_iff evs 0) as Hb.
    destruct (Put_loop 0 evs) as [[top err0] | |] eqn:Hloop.
    + assert (Hv : forallb is_value evs = false).
      { destruct (forallb is_value evs); [| reflexivity].
        destruct Hb as [_ Hb]. specialize (Hb eq_refl). discriminate. }
      destruct (fan_out_outcome (seqToPut top) closest err0) as [_ Hnb].
      destruct (fan_out sPut (seqToPut top) closest err0) as [[log e] | |].
      * split; [discriminate | intros [_ H]; congruence].
      * split; [discriminate | intros [_ H]; congruence].
      * contradiction.
    + contradiction.
    + assert (Hv : forallb is_value evs = true) by now apply Hb.
      tauto.
Qed.

End Termination.

(** ** What the discovery of Put depends on *)

Lemma Put_loop_skips_immutable (vs : list FullGetResult) :
  forall a tail,
    Put_loop a (values vs ++ tail)
    = Put_loop a (values (filter Mutable vs) ++ tail).
Proof.
  induction vs as [| v vs IH]; intros a tail; simpl; [reflexivity |].
  destruct (Mutable v) eqn:Hm; simpl.
  - rewrite Hm. simpl. apply IH.
  - apply IH.
Qed.

Lemma Put_loop_permutation (vs ws : list FullGetResult) :
  Permutation vs ws ->
  forall a tail,
    Put_loop a (values vs ++ tail) = Put_loop a (values ws ++ tail).
Proof.
  induction 1 as [| v vs ws _ IH | v w vs | vs ws us _ IH1 _ IH2];
    intros a tail; simpl.
  - reflexivity.
  - apply IH.
  - f_equal.
    destruct (Mutable v), (Mutable w); simpl; try reflexivity.
    destruct (Z.gtb_spec (Seq w) a), (Z.gtb_spec (Seq v) a);
      repeat match goal with
             | |- context [?x >? ?y] => destruct (Z.gtb_spec x y)
             end; lia.
  - now rewrite IH1.
Qed.

Section Discovery.

Variables Stats PutItem : Type.
Variables (target salt : bytes) (seq : option Z) (st : Stats).
Variable seqToPut : Z -> PutItem.
Variable sPut : NodeAddr -> PutItem -> string -> option error.

(** X3.  Immutable candidates have no effect on [Put]: they neither end
    its discovery nor change the sequence given to the builder.  The run is
    the same with them taken out of the trace. *)
Theorem Put_ignores_immutable_candidates :
  forall (vs : list FullGetResult) (tail : list Event) (closest : list Elem),
    Put target salt seqToPut None st (values vs ++ tail) closest sPut
    = Put target salt seqToPut None st
          (values (filter Mutable vs) ++ tail) closest sPut.
Proof.
  intros vs tail closest. unfold Put, startGetTraversal.
  now rewrite Put_loop_skips_immutable.
Qed.

(** X4.  [Put] does not depend on the order in which the candidates
    arrive: the same candidates in another order give the same run. *)
Theorem Put_independent_of_arrival_order :
  forall (vs ws : list FullGetResult) (tail : list Event)
         (closest : list Elem),
    Permutation vs ws ->
    Put target salt seqToPut None st (values vs ++ tail) closest sPut
    = Put target salt seqToPut None st (values ws ++ tail) closest sPut.
Proof.
  intros vs ws tail closest Hp. unfold Put, startGetTraversal.
  now rewrite (Put_loop_permutation vs ws Hp).
Qed.

(** X5.  Over mutable candidates, the sequence number of the item [Get]
    returns on the stall does not depend on the order of arrival, and
    neither does its error; the item itself may, between candidates of the
    same sequence. *)
Theorem Get_seq_independent_of_arrival_order :
  forall (vs ws : list FullGetResult) (rest rest' : list Event),
    Permutation vs ws ->
    Forall (fun v => Mutable v = true) vs ->
    exists r r' e,
      Get target seq salt None st (values vs ++ EvStalled :: rest)
      = Returned {| ret := r; stats := Some st; err := e |}
      /\ Get target seq salt None st (values ws ++ EvStalled :: rest')
         = Returned {| ret := r'; stats := Some st; err := e |}
      /\ Seq r = Seq r'.
Proof.
  intros vs ws rest rest' Hp Hm.
  assert (Hm' : Forall (fun v => Mutable v = true) ws).
  { rewrite Forall_forall in *. intros v Hv. apply Hm.
    now apply (Permutation_in v (Permutation_sym Hp)). }
  destruct (Get_loop_mutables vs initial_ret Hm)
    as (r & Hrun & Hle & Hall & Hcase).
  destruct (Get_loop_mutables ws initial_ret Hm')
    as (r' & Hrun' & Hle' & Hall' & Hcase').
  exists r, r', (match vs with [] => Some ErrValueNotFound | _ => None end).
  rewrite !Get_started, Hrun, Hrun'. simpl.
  split; [destruct vs; reflexivity |].
  split.
  { destruct vs as [| v vs], ws as [| w ws]; try reflexivity.
    - apply Permutation_nil in Hp. discriminate.
    - apply Permutation_sym, Permutation_nil in Hp. discriminate. }
  rewrite Forall_forall in Hall, Hall'.
  assert (H1 : Seq r <= Seq r').
  { destruct Hcase as [[-> _] | (pre & post & -> & _)]; [assumption |].
    apply Hall'. apply (Permutation_in _ Hp). apply in_elt. }
  assert (H2 : Seq r' <= Seq r).
  { destruct Hcase' as [[-> _] | (pre & post & -> & _)]; [assumption |].
    apply Hall. apply (Permutation_in _ (Permutation_sym Hp)). apply in_elt. }
  lia.
Qed.

(** X6.  [Get] and [Put] agree on the sequence of a target.  Over the same
    mutable candidates, not none, [Put] calls the builder with the sequence
    of the item that [Get] returns, or with 0 when that sequence is
    negative, and every write carries the item built from it. *)
Theorem Put_builds_with_seq_of_Get :
  forall (vs : list FullGetResult) (rest rest' : list Event)
         (closest : list Elem),
    vs <> [] ->
    Forall (fun v => Mutable v = true /\ int64_ok (Seq v)) vs ->
    Forall (fun el => exists token, Data el = IString token) closest ->
    exists r res t log,
      Get target seq salt None st (values vs ++ EvStalled :: rest)
      = Returned {| ret := r; stats := Some st; err := None |}
      /\ Put target salt seqToPut None st (values vs ++ EvStalled :: rest')
             closest sPut
         = Returned res
      /\ p_log res
         = ActStart t :: ActStop :: ActBuild (Z.max 0 (Seq r)) :: log
      /\ builds log = 0%nat
      /\ writes log = List.length closest
      /\ forall el, In el closest ->
           In (ActWrite (Addr el) (seqToPut (Z.max 0 (Seq r)))
                 (assert_string_ok (Data el))) log.
Proof.
  intros vs rest rest' closest Hne Hall Htok.
  assert (Hm : Forall (fun v => Mutable v = true) vs).
  { eapply Forall_impl; [| exact Hall]. simpl. tauto. }
  destruct (Get_loop_mutables vs initial_ret Hm)
    as (r & Hrun & _ & Hle & Hcase).
  destruct (Put_loop_values vs 0 (EvStalled :: rest'))
    as (top & Hput & Hpos & Hmax & Hatt).
  assert (Hin : In r vs).
  { destruct Hcase as [[_ Hlt] | (pre & post & -> & _)]; [| apply in_elt].
    destruct vs as [| v vs]; [contradiction |].
    inversion Hlt as [| ? ? Hv _]; inversion Hall as [| ? ? [_ Hok] _]; subst.
    unfold int64_ok in Hok. simpl in Hv. lia. }
  rewrite Forall_forall in Hm, Hle, Hmax.
  assert (Htop : top = Z.max 0 (Seq r)).
  { pose proof (Hmax r Hin (Hm r Hin)).
    destruct Hatt as [-> | (v & Hv & _ & <-)]; [lia |].
    pose proof (Hle v Hv). lia. }
  simpl in Hput. rewrite Htop in Hput.
  destruct (Put_after_discovery Stats PutItem target salt seqToPut st sPut
              _ closest _ _ Hput Htok) as (log & Hrun' & Hb & Hw & Hwr).
  exists r. eexists _, _, log.
  split.
  { rewrite Get_started, Hrun. destruct vs; [contradiction | reflexivity]. }
  split; [exact Hrun' |]. simpl. auto.
Qed.

(** X7.  [Get] makes up no item.  With sequence numbers in the range of
    [int64], the item it returns is one of the candidates it received; or
    else the initial item, and then together with an error; or else, when
    the starting nodes failed, the zero item together with their error and
    no statistics. *)
Theorem Get_returns_received_item :
  forall (start_err : option error) (evs : list Event)
         (res : GetResult Stats),
    (forall v, In (EvValue v) evs -> int64_ok (Seq v)) ->
    Get target seq salt start_err st evs = Returned res ->
    match start_err with
    | Some e => res = {| ret := zero_result; stats := None; err := Some e |}
    | None =>
      stats res = Some st
      /\ (In (EvValue (ret res)) evs
          \/ (ret res = initial_ret /\ err res <> None))
    end.
Proof.
  intros start_err evs res Hok.
  destruct start_err as [e0 |]; [intros [= <-]; reflexivity |].
  rewrite Get_started.
  assert (Hprov : forall evs cur got r e,
             Get_loop cur got evs = Returned (r, e) ->
             r = cur \/ In (EvValue r) evs).
  { clear. induction evs as [| [| v | c] evs IH]; intros cur got r e H;
      simpl in H; try discriminate.
    - injection H as <- _. now left.
    - destruct (negb (Mutable v)).
      + injection H as <- _. right. now left.
      + destruct (IH _ _ _ _ H) as [-> | Hin].
        * destruct (Seq v >=? Seq cur); [right; now left | now left].
        * right. now right.
    - injection H as <- _. now left. }
  destruct evs as [| [| v | c] evs]; simpl; try discriminate.
  - intros [= <-]. split; [reflexivity |].
    right. split; [reflexivity | discriminate].
  - destruct (negb (Mutable v)).
    + intros [= <-]. split; [reflexivity |]. left. now left.
    + assert (Hge : (Seq v >=? MinInt64) = true).
      { assert (int64_ok (Seq v)) as [H _] by (apply Hok; now left).
        apply Z.geb_le. exact H. }
      rewrite Hge.
      destruct (Get_loop v true evs) as [[r e] | |] eqn:Hloop;
        try discriminate.
      intros [= <-]. split; [reflexivity |]. left. simpl.
      destruct (Hprov _ _ _ _ _ Hloop) as [-> | Hin]; [now left | now right].
  - intros [= <-]. split; [reflexivity |].
    right. split; [reflexivity | discriminate].
Qed.

End Discovery.

(** ** The writes of Put *)

Section Writes.

Variables Stats PutItem : Type.
Variables (target salt : bytes) (st : Stats).
Variable seqToPut : Z -> PutItem.
Variable sPut : NodeAddr -> PutItem -> string -> option error.



(** X9.  The tokens that went through [DoQuery] never make [Put] panic:
    when the [Data] of every element of the closest set is the
    [ClosestData] of a query result [DoQuery] returned, [Put] returns as
    soon as its discovery ends. *)
Theorem Put_safe_on_query_results :
  forall (vs : list FullGetResult) (ev : Event) (rest : list Event)
         (closest : list Elem),
    is_value ev = false ->
    Forall (fun el => exists q, Data el = ClosestData (finish_tqr q)) closest ->
    exists res,
      Put target salt seqToPut None st (values vs ++ ev :: rest) closest sPut
      = Returned res
      /\ writes (p_log res) = List.length closest.
Proof.
  intros vs ev rest closest Hev Hq.
  assert (Htok : Forall (fun el => exists token, Data el = IString token)
                        closest).
  { eapply Forall_impl; [| exact Hq]. intros el [q ->].
    unfold finish_tqr. simpl. eauto. }
  destruct (Put_loop_values vs 0 (ev :: rest)) as (top & Hrun & _).
  assert (Hend : exists err0, Put_loop top (ev :: rest) = Returned (top, err0)).
  { destruct ev; simpl; eauto. discriminate. }
  destruct Hend as [err0 Hend]. rewrite Hend in Hrun.
  destruct (fan_out_tokens PutItem sPut (seqToPut top) closest err0 Htok)
    as (log & Hfan & _ & Hw & _).
  unfold Put, startGetTraversal. rewrite Hrun, Hfan.
  eexists. split; [reflexivity |]. exact Hw.
Qed.

End Writes.

(** ** The per-node query *)

Section Query.

Variable sha1 : bytes -> bytes.
Variable Verify : bytes -> bytes -> Z -> bytes -> bytes -> bool.
Variable Stats : Type.
Variable st : Stats.

(** X10.  [DoQuery] never waits, and it panics in exactly one case: the
    reply carries no sequence number, its value digest is not the target
    and the digest of its key and the salt is.  The signature is not
    looked at before the sequence is read. *)
Theorem DoQuery_panics_iff :
  forall (t : Traversal) (reply : option Return) (tqr : TraversalQueryResult)
         (sent : bool),
    DoQuery sha1 Verify t reply tqr sent <> Blocked
    /\ (DoQuery sha1 Verify t reply tqr sent = Panicked
        <-> exists r, reply = Some r
                      /\ sha1 (r_V r) <> t_target t
                      /\ sha1 (r_K r ++ t_salt t) = t_target t
                      /\ r_Seq r = None).
Proof.
  intros t reply tqr sent. unfold DoQuery, classify.
  destruct reply as [r |].
  - destruct (bytes_eq_dec (sha1 (r_V r)) (t_target t)) as [Hv | Hv].
    + split; [discriminate |]. split; [discriminate |].
      intros (r' & [= <-] & H & _). contradiction.
    + destruct (bytes_eq_dec (sha1 (r_K r ++ t_salt t)) (t_target t))
        as [Hk | Hk].
      * destruct (r_Seq r) as [s |] eqn:Hs.
        -- destruct (Verify _ _ _ _ _); (split; [discriminate |]);
             (split; [discriminate |]);
             intros (r' & [= <-] & _ & _ & H); congruence.
        -- split; [discriminate |]. split; [| reflexivity].
           intros _. exists r. auto.
      * split; [discriminate |]. split; [discriminate |].
        intros (r' & [= <-] & _ & H & _). contradiction.
  - split; [discriminate |]. split; [discriminate |].
    intros (r & H & _). discriminate.
Qed.

(** X11.  What [DoQuery] reports to the traversal does not depend on the
    item of the reply: whenever it returns, the query result is the one of
    the server with its token coerced, whether a candidate was accepted,
    discarded or dropped.  A candidate goes out only when the send on the
    channel went through; an immutable one has sequence 0, a mutable one
    the sequence of the reply. *)
Theorem DoQuery_result :
  forall (t : Traversal) (reply : option Return) (tqr : TraversalQueryResult)
         (sent : bool) (out : option FullGetResult) (q : TraversalQueryResult),
    DoQuery sha1 Verify t reply tqr sent = Returned (out, q) ->
    q = finish_tqr tqr
    /\ forall v, out = Some v ->
         sent = true
         /\ exists r, reply = Some r
              /\ V v = r_V r /\ Sig v = r_Sig r
              /\ (if Mutable v then r_Seq r = Some (Seq v) else Seq v = 0).
Proof.
  intros t reply tqr sent out q. unfold DoQuery.
  destruct reply as [r |]; [| intros [= <- <-]; split; [auto | discriminate]].
  destruct (classify sha1 Verify (t_target t) (t_salt t) r) as [c | |] eqn:Hc;
    try discriminate.
  intros [= <- <-]. split; [reflexivity |].
  intros v Hv. destruct sent; [| discriminate]. split; [reflexivity |].
  exists r. split; [reflexivity |].
  unfold classify in Hc.
  destruct (bytes_eq_dec (sha1 (r_V r)) (t_target t)).
  - injection Hc as <-. injection Hv as <-. simpl. auto.
  - destruct (bytes_eq_dec (sha1 (r_K r ++ t_salt t)) (t_target t));
      [| injection Hc as <-; discriminate].
    destruct (r_Seq r) as [s |]; [| discriminate].
    destruct (Verify _ _ _ _ _); injection Hc as <-; [| discriminate].
    injection Hv as <-. simpl. auto.
Qed.

(** X12.  From the reply to the result, immutable item.  A reply whose
    value digest is the target is put on the channel as an immutable
    candidate, and [Get], receiving it after any mutable candidates,
    returns the value and signature of the reply, with sequence 0 and
    without error. *)
Theorem Get_returns_value_of_matching_reply :
  forall (t : Traversal) (r : Return) (tqr : TraversalQueryResult)
         (pre : list FullGetResult) (rest : list Event),
    sha1 (r_V r) = t_target t ->
    Forall (fun v => Mutable v = true) pre ->
    exists v,
      DoQuery sha1 Verify t (Some r) tqr true = Returned (Some v, finish_tqr tqr)
      /\ Get (t_target t) (t_seq t) (t_salt t) None st
             (values pre ++ EvValue v :: rest)
         = Returned {| ret := {| Seq := 0; V := r_V r; Sig := r_Sig r;
                                 Mutable := false |};
                       stats := Some st; err := None |}.
Proof.
  intros t r tqr pre rest Hv Hm.
  eexists. split.
  - unfold DoQuery, classify.
    destruct (bytes_eq_dec (sha1 (r_V r)) (t_target t)); [| contradiction].
    reflexivity.
  - destruct (Get_loop_mutables pre initial_ret Hm) as (best & Hrun & _).
    rewrite Get_started, Hrun. reflexivity.
Qed.

(** X13.  From the reply to the result, mutable item.  A reply whose key
    digest is the target, whose value digest is not, and whose signature
    verifies over its sequence is put on the channel as a mutable
    candidate; when it is the only candidate before the stall, [Get]
    returns its value with that very sequence, without error. *)
Theorem Get_returns_item_of_signed_reply :
  forall (t : Traversal) (r : Return) (s : Z) (tqr : TraversalQueryResult)
         (rest : list Event),
    sha1 (r_V r) <> t_target t ->
    sha1 (r_K r ++ t_salt t) = t_target t ->
    r_Seq r = Some s ->
    int64_ok s ->
    Verify (r_K r) (t_salt t) s (r_V r) (r_Sig r) = true ->
    exists v,
      DoQuery sha1 Verify t (Some r) tqr true = Returned (Some v, finish_tqr tqr)
      /\ Get (t_target t) (t_seq t) (t_salt t) None st
             (EvValue v :: EvStalled :: rest)
         = Returned {| ret := {| Seq := s; V := r_V r; Sig := r_Sig r;
                                 Mutable := true |};
                       stats := Some st; err := None |}.
Proof.
  intros t r s tqr rest Hv Hk Hs [Hlo _] Hok.
  eexists. split.
  - unfold DoQuery, classify.
    destruct (bytes_eq_dec (sha1 (r_V r)) (t_target t)); [contradiction |].
    destruct (bytes_eq_dec (sha1 (r_K r ++ t_salt t)) (t_target t));
      [| contradiction].
    rewrite Hs, Hok. reflexivity.
  - rewrite Get_started. simpl.
    assert (Hge : (s >=? MinInt64) = true) by now apply Z.geb_le.
    rewrite Hge. reflexivity.
Qed.

End Query.

(** ** Concrete runs of the further properties *)

(** [Put_independent_of_arrival_order] at a concrete run. *)
Lemma Put_independent_of_arrival_order_witness :
  Put [] [] next_seq None tt
      (values [mutable_item 5 [x01]; mutable_item 7 [x03]] ++ [EvStalled])
      [node n1 "t"] accept
  = Put [] [] next_seq None tt
        (values [mutable_item 7 [x03]; mutable_item 5 [x01]] ++ [EvStalled])
        [node n1 "t"] accept.
Proof.
  apply (Put_independent_of_arrival_order unit Z [] [] tt next_seq accept).
  apply perm_swap.
Defined.

(** [Get_seq_independent_of_arrival_order] at a concrete run. *)
Lemma Get_seq_independent_of_arrival_order_witness :
  exists r r' e,
    Get [] None [] None tt
        (values [mutable_item 7 [x03]; mutable_item 7 [x04]] ++ [EvStalled])
    = Returned {| ret := r; stats := Some tt; err := e |}
    /\ Get [] None [] None tt
           (values [mutable_item 7 [x04]; mutable_item 7 [x03]] ++ [EvStalled])
       = Returned {| ret := r'; stats := Some tt; err := e |}
    /\ Seq r = Seq r'.
Proof.
  apply (Get_seq_independent_of_arrival_order unit [] [] None tt
           [mutable_item 7 [x03]; mutable_item 7 [x04]]
           [mutable_item 7 [x04]; mutable_item 7 [x03]] [] []).
  - apply perm_swap.
  - repeat constructor.
Defined.

(** [Put_builds_with_seq_of_Get] at a concrete run. *)
Lemma Put_builds_with_seq_of_Get_witness :
  exists r res t log,
    Get [] None [] None tt (values seqs_5_3_7_7 ++ [EvStalled])
    = Returned {| ret := r; stats := Some tt; err := None |}
    /\ Put [] [] next_seq None tt (values seqs_5_3_7_7 ++ [EvStalled])
           [node n1 "a"; node n2 "b"] accept
       = Returned res
    /\ p_log res = ActStart t :: ActStop :: ActBuild (Z.max 0 (Seq r)) :: log
    /\ builds log = 0%nat
    /\ writes log = List.length [node n1 "a"; node n2 "b"]
    /\ forall el, In el [node n1 "a"; node n2 "b"] ->
         In (ActWrite (Addr el) (next_seq (Z.max 0 (Seq r)))
               (assert_string_ok (Data el))) log.
Proof.
  apply (Put_builds_with_seq_of_Get unit Z [] [] None tt next_seq accept
           seqs_5_3_7_7 [] [] [node n1 "a"; node n2 "b"]).
  - discriminate.
  - unfold seqs_5_3_7_7, int64_ok, MinInt64, MaxInt64.
    repeat constructor; simpl; lia.
  - repeat constructor; eexists; reflexivity.
Defined.

(** [Get_returns_received_item] at two concrete runs: a cancellation
    after a candidate, and a failed start. *)
Lemma Get_returns_received_item_witness :
  (Some tt = Some tt
   /\ (In (EvValue (mutable_item 5 [x01]))
          [EvValue (mutable_item 5 [x01]); EvDone Canceled]
       \/ (mutable_item 5 [x01] = initial_ret
           /\ Some (ErrCtx Canceled) <> None)))
  /\ {| ret := zero_result; stats := @None unit;
        err := Some no_starting_nodes |}
     = {| ret := zero_result; stats := None; err := Some no_starting_nodes |}.
Proof.
  split.
  - apply (Get_returns_received_item unit [] [] None tt None
             [EvValue (mutable_item 5 [x01]); EvDone Canceled]
             {| ret := mutable_item 5 [x01]; stats := Some tt;
                err := Some (ErrCtx Canceled) |}).
    + intros v [H | [H | []]]; [| discriminate].
      injection H as <-. unfold int64_ok, MinInt64, MaxInt64. simpl. lia.
    + reflexivity.
  - apply (Get_returns_received_item unit [] [] None tt
             (Some no_starting_nodes) [EvStalled]
             {| ret := zero_result; stats := None;
                err := Some no_starting_nodes |}).
    + intros v [H | []]. discriminate.
    + reflexivity.
Defined.


(** [Put_safe_on_query_results] at a concrete run. *)
Lemma Put_safe_on_query_results_witness :
  exists res,
    Put [] [] next_seq None tt (values [] ++ [EvStalled])
        [{| Addr := n1; Data := ClosestData (finish_tqr (tokenless n1)) |}]
        accept
    = Returned res
    /\ writes (p_log res)
       = List.length
           [{| Addr := n1; Data := ClosestData (finish_tqr (tokenless n1)) |}].
Proof.
  apply (Put_safe_on_query_results unit Z [] [] tt next_seq accept
           [] EvStalled []).
  - reflexivity.
  - repeat constructor. exists (tokenless n1). reflexivity.
Defined.

(** [DoQuery_result] at a concrete run. *)
Lemma DoQuery_result_witness :
  finish_tqr (tokenless n1) = finish_tqr (tokenless n1)
  /\ forall v,
       Some {| Seq := 3; V := [x76]; Sig := zero_sig; Mutable := true |}
       = Some v ->
       true = true
       /\ exists r, Some signed_reply = Some r
            /\ V v = r_V r /\ Sig v = r_Sig r
            /\ (if Mutable v then r_Seq r = Some (Seq v) else Seq v = 0).
Proof.
  apply (DoQuery_result pad20 accept_all sample_traversal (Some signed_reply)
           (tokenless n1) true).
  reflexivity.
Defined.

(** [Get_returns_value_of_matching_reply] at a concrete run. *)
Lemma Get_returns_value_of_matching_reply_witness :
  exists v,
    DoQuery pad20 reject_all sample_traversal (Some key_as_value)
            (tokenless n1) true
    = Returned (Some v, finish_tqr (tokenless n1))
    /\ Get (t_target sample_traversal) (t_seq sample_traversal)
           (t_salt sample_traversal) None tt
           (values [mutable_item 9 [x01]] ++ EvValue v :: [EvStalled])
       = Returned {| ret := {| Seq := 0; V := r_V key_as_value;
                               Sig := r_Sig key_as_value; Mutable := false |};
                     stats := Some tt; err := None |}.
Proof.
  apply (Get_returns_value_of_matching_reply pad20 reject_all unit tt
           sample_traversal key_as_value (tokenless n1)
           [mutable_item 9 [x01]] [EvStalled]).
  - reflexivity.
  - repeat constructor.
Defined.

(** [Get_returns_item_of_signed_reply] at a concrete run. *)
Lemma Get_returns_item_of_signed_reply_witness :
  exists v,
    DoQuery pad20 accept_all sample_traversal (Some signed_reply)
            (tokenless n1) true
    = Returned (Some v, finish_tqr (tokenless n1))
    /\ Get (t_target sample_traversal) (t_seq sample_traversal)
           (t_salt sample_traversal) None tt
           (EvValue v :: EvStalled :: [])
       = Returned {| ret := {| Seq := 3; V := r_V signed_reply;
                               Sig := r_Sig signed_reply; Mutable := true |};
                     stats := Some tt; err := None |}.
Proof.
  apply (Get_returns_item_of_signed_reply pad20 accept_all unit tt
           sample_traversal signed_reply 3 (tokenless n1) []).
  - discriminate.
  - reflexivity.
  - reflexivity.
  - unfold int64_ok, MinInt64, MaxInt64. lia.
  - reflexivity.
Defined.
